(** * tiny-result: the Result type of [src/core.ts] and the helpers of
      [src/utility.ts], embedded in Rocq.

    The library is TypeScript: its methods take callbacks, callbacks may
    have effects and may throw, and two methods throw on purpose.  The
    embedding therefore runs in a small monad [JS] over a machine that
    holds the host program's store and the log of the callback
    invocations made by the library code, with [throw] and [try_catch] as
    the language has them. *)

From Stdlib Require Import List String Bool Arith Lia.
Import ListNotations.
Local Open Scope list_scope.
Local Open Scope string_scope.

(** ** Host language *)

(** Values that travel through [throw] and [catch]; the source types them
    [unknown].  [js_Error name message] is an Error object, as built by
    [new Error(message)] (name ["Error"]) or by the engine (["TypeError"]). *)
Inductive unknown : Type :=
| js_undefined
| js_null
| js_boolean (b : bool)
| js_string (s : string)
| js_symbol (description : string)
| js_Error (name message : string).

(** [new Error(message)] *)
Definition new_Error (message : string) : unknown := js_Error "Error" message.

(** The [message] property of a thrown value, when it is an Error object. *)
Definition message_of (x : unknown) : option string :=
  match x with
  | js_Error _ message => Some message
  | _ => None
  end.

(** How an evaluation ends: with a value, or with a thrown value. *)
Inductive completion (A : Type) : Type :=
| Normal (a : A)
| Throw (x : unknown).
Arguments Normal {A} a.
Arguments Throw {A} x.

(** The machine: the store of the host program (whatever the callbacks
    read and write) and the names of the callbacks the library code has
    invoked so far, oldest first. *)
Record Machine (S : Type) : Type := mkMachine {
  store : S;
  calls : list string
}.
Arguments mkMachine {S} store calls.
Arguments store {S} m.
Arguments calls {S} m.

Definition JS (S A : Type) : Type := Machine S -> completion A * Machine S.

Definition ret {S A} (a : A) : JS S A := fun m => (Normal a, m).

Definition throw {S A} (x : unknown) : JS S A := fun m => (Throw x, m).

Definition bind {S A B} (c : JS S A) (k : A -> JS S B) : JS S B :=
  fun m =>
    match c m with
    | (Normal a, m') => k a m'
    | (Throw x, m') => (Throw x, m')
    end.

(** [try { body } catch (error) { handler }] *)
Definition try_catch {S A} (body : JS S A) (handler : unknown -> JS S A) : JS S A :=
  fun m =>
    match body m with
    | (Normal a, m') => (Normal a, m')
    | (Throw x, m') => handler x m'
    end.

Notation "x <- c ;; k" := (bind c (fun x => k))
  (at level 61, c at next level, right associativity).

(** A function value handed to the library: a name, by which its
    invocations are logged, and a body that runs on the store and ends
    with a value or a throw. *)
Record Fn (S A B : Type) : Type := mkFn {
  fn_name : string;
  fn_body : A -> S -> completion B * S
}.
Arguments mkFn {S A B} fn_name fn_body.
Arguments fn_name {S A B} f.
Arguments fn_body {S A B} f a s.

(** [f(a)] in library code: the invocation is logged, then the body runs. *)
Definition call {S A B} (f : Fn S A B) (a : A) : JS S B :=
  fun m =>
    let (c, s') := fn_body f a (store m) in
    (c, mkMachine s' (calls m ++ [fn_name f])%list).

(** A function without effects that always returns. *)
Definition pure_fn {S A B} (name : string) (f : A -> B) : Fn S A B :=
  mkFn name (fun a s => (Normal (f a), s)).

(** The arrow function [x => g(f(x))], written by the caller. *)
Definition arrow_compose {S A B C} (name : string) (f : Fn S A B) (g : Fn S B C)
  : Fn S A C :=
  mkFn name (fun x s =>
    match fn_body f x s with
    | (Normal y, s') => fn_body g y s'
    | (Throw e, s') => (Throw e, s')
    end).

(** An arrow function written by the caller whose body is itself modelled
    code.  What its body invokes is the caller's own business: it runs on
    a log of its own, which is dropped when the body ends. *)
Definition lambda {S A B} (name : string) (body : A -> JS S B) : Fn S A B :=
  mkFn name (fun a s => let (c, m') := body a (mkMachine s []) in (c, store m')).

(** How often the library code has invoked the function called [name]. *)
Definition invocations {S} (name : string) (m : Machine S) : nat :=
  count_occ string_dec (calls m) name.

(** [`${e}`]: the host's string conversion of a payload.  It may run
    code of the payload (a [toString] method) and it may throw. *)
Class ToString (S E : Type) : Type := to_string : E -> JS S string.

#[global] Instance ToString_string {S} : ToString S string := fun s => ret s.

#[global] Instance ToString_bool {S} : ToString S bool :=
  fun b => ret (if b then "true" else "false").

#[global] Instance ToString_unknown {S} : ToString S unknown := fun x =>
  match x with
  | js_undefined => ret "undefined"
  | js_null => ret "null"
  | js_boolean b => ret (if b then "true" else "false")
  | js_string s => ret s
  | js_symbol _ => throw (js_Error "TypeError" "Cannot convert a Symbol value to a string")
  | js_Error name message =>
      ret (match name, message with
           | EmptyString, _ => message
           | _, EmptyString => name
           | _, _ => name ++ ": " ++ message
           end)
  end.

(** [x as E]: a type assertion changes the static type only. *)
Class TypeAssertion (A B : Type) : Type := type_assert : A -> B.

#[global] Instance TypeAssertion_same {A} : TypeAssertion A A := fun a => a.

(** ** src/core.ts *)

(** [class Ok<T>]: the fields [ok], [err] and [value]. *)
Record Ok (T : Type) : Type := mkOk {
  Ok_ok : bool;
  Ok_err : bool;
  value : T
}.
Arguments mkOk {T} Ok_ok Ok_err value.
Arguments Ok_ok {T} o.
Arguments Ok_err {T} o.
Arguments value {T} o.

(** [class Err<E>]: the fields [ok], [err] and [error]. *)
Record Err (E : Type) : Type := mkErr {
  Err_ok : bool;
  Err_err : bool;
  error : E
}.
Arguments mkErr {E} Err_ok Err_err error.
Arguments Err_ok {E} e.
Arguments Err_err {E} e.
Arguments error {E} e.

(** [type Result<T, E> = Ok<T> | Err<E>] *)
Inductive Result (T E : Type) : Type :=
| IsOk (o : Ok T)
| IsErr (e : Err E).
Arguments IsOk {T E} o.
Arguments IsErr {T E} e.

#[warning="-uniform-inheritance"] Coercion IsOk : Ok >-> Result.
#[warning="-uniform-inheritance"] Coercion IsErr : Err >-> Result.

(** The argument of [match]: [{ ok: (value: T) => U; err: (error: E) => U }] *)
Record Matcher (S T E U : Type) : Type := mkMatcher {
  matcher_ok : Fn S T U;
  matcher_err : Fn S E U
}.
Arguments mkMatcher {S T E U} matcher_ok matcher_err.
Arguments matcher_ok {S T E U} m.
Arguments matcher_err {S T E U} m.

(** The methods of [class Ok<T>].  A parameter or result typed [never] in
    the source is a free type variable here. *)
Module Ok.

(** [new Ok(value)]: the field initialisers, then the constructor. *)
Definition new {T} (value : T) : Ok T := mkOk true false value.

Definition map {S T U E} (this : Ok T) (fn : Fn S T U) : JS S (Result U E) :=
  u <- call fn (value this) ;; ret (IsOk (new u)).

Definition mapErr {S T E F} (this : Ok T) (_fn : Fn S E F) : JS S (Result T F) :=
  ret (IsOk this).

Definition andThen {S T U E} (this : Ok T) (fn : Fn S T (Result U E))
  : JS S (Result U E) :=
  call fn (value this).

Definition orElse {S T E F} (this : Ok T) (_fn : Fn S E (Result T F))
  : JS S (Result T F) :=
  ret (IsOk this).

Definition match_ {S T E U} (this : Ok T) (matcher : Matcher S T E U) : JS S U :=
  call (matcher_ok matcher) (value this).

Definition unwrap {S T} (this : Ok T) : JS S T := ret (value this).

Definition unwrapOr {S T} (this : Ok T) (_defaultValue : T) : JS S T :=
  ret (value this).

Definition unwrapErr {S T E} (this : Ok T) : JS S E :=
  throw (new_Error "Called unwrapErr on Ok").

Definition isOk {T} (this : Ok T) : bool := true.

Definition isErr {T} (this : Ok T) : bool := false.

End Ok.

(** The methods of [class Err<E>]. *)
Module Err.

Definition new {E} (error : E) : Err E := mkErr false true error.

Definition map {S T U E} (this : Err E) (_fn : Fn S T U) : JS S (Result U E) :=
  ret (IsErr this).

Definition mapErr {S T E F} (this : Err E) (fn : Fn S E F) : JS S (Result T F) :=
  f <- call fn (error this) ;; ret (IsErr (new f)).

Definition andThen {S T U E} (this : Err E) (_fn : Fn S T (Result U E))
  : JS S (Result U E) :=
  ret (IsErr this).

Definition orElse {S T E F} (this : Err E) (fn : Fn S E (Result T F))
  : JS S (Result T F) :=
  call fn (error this).

Definition match_ {S T E U} (this : Err E) (matcher : Matcher S T E U) : JS S U :=
  call (matcher_err matcher) (error this).

(** [throw new Error(`Called unwrap on Err: ${this.error}`)] *)
Definition unwrap {S T E} `{ToString S E} (this : Err E) : JS S T :=
  s <- to_string (error this) ;;
  throw (new_Error ("Called unwrap on Err: " ++ s)).

Definition unwrapOr {S T E} (this : Err E) (defaultValue : T) : JS S T :=
  ret defaultValue.

Definition unwrapErr {S E} (this : Err E) : JS S E := ret (error this).

Definition isOk {E} (this : Err E) : bool := false.

Definition isErr {E} (this : Err E) : bool := true.

End Err.

(** A method call on a receiver of the union type: the class of the
    receiver selects the method. *)
Module Result.

(** [result.ok] and [result.err] *)
Definition ok {T E} (r : Result T E) : bool :=
  match r with IsOk o => Ok_ok o | IsErr e => Err_ok e end.

Definition err {T E} (r : Result T E) : bool :=
  match r with IsOk o => Ok_err o | IsErr e => Err_err e end.

Definition map {S T U E} (r : Result T E) (fn : Fn S T U) : JS S (Result U E) :=
  match r with IsOk o => Ok.map o fn | IsErr e => Err.map e fn end.

Definition mapErr {S T E F} (r : Result T E) (fn : Fn S E F) : JS S (Result T F) :=
  match r with IsOk o => Ok.mapErr o fn | IsErr e => Err.mapErr e fn end.

Definition andThen {S T U E} (r : Result T E) (fn : Fn S T (Result U E))
  : JS S (Result U E) :=
  match r with IsOk o => Ok.andThen o fn | IsErr e => Err.andThen e fn end.

Definition orElse {S T E F} (r : Result T E) (fn : Fn S E (Result T F))
  : JS S (Result T F) :=
  match r with IsOk o => Ok.orElse o fn | IsErr e => Err.orElse e fn end.

Definition match_ {S T E U} (r : Result T E) (matcher : Matcher S T E U) : JS S U :=
  match r with IsOk o => Ok.match_ o matcher | IsErr e => Err.match_ e matcher end.

Definition unwrap {S T E} `{ToString S E} (r : Result T E) : JS S T :=
  match r with IsOk o => Ok.unwrap o | IsErr e => Err.unwrap e end.

Definition unwrapOr {S T E} (r : Result T E) (defaultValue : T) : JS S T :=
  match r with
  | IsOk o => Ok.unwrapOr o defaultValue
  | IsErr e => Err.unwrapOr e defaultValue
  end.

Definition unwrapErr {S T E} (r : Result T E) : JS S E :=
  match r with IsOk o => Ok.unwrapErr o | IsErr e => Err.unwrapErr e end.

Definition isOk {T E} (r : Result T E) : bool :=
  match r with IsOk o => Ok.isOk o | IsErr e => Err.isOk e end.

Definition isErr {T E} (r : Result T E) : bool :=
  match r with IsOk o => Ok.isErr o | IsErr e => Err.isErr e end.

End Result.

(** Constructor functions *)
Definition ok {T} (value : T) : Ok T := Ok.new value.
Definition err {E} (error : E) : Err E := Err.new error.

(** Type guards *)
Definition isOk {T E} (result : Result T E) : bool := Result.ok result.
Definition isErr {T E} (result : Result T E) : bool := Result.err result.

(** ** src/utility.ts *)

Definition tryCatch {S T E} `{TypeAssertion unknown E}
    (fn : Fn S unit T) (mapError : option (Fn S unknown E)) : JS S (Result T E) :=
  try_catch
    (t <- call fn tt ;; ret (IsOk (ok t)))
    (fun error =>
       e <- match mapError with
            | Some mapError => call mapError error
            | None => ret (type_assert error)
            end ;;
       ret (IsErr (err e))).

(** How a promise ends, when it ends. *)
Inductive Settlement (T : Type) : Type :=
| Fulfilled (value : T)
| Rejected (reason : unknown).
Arguments Fulfilled {T} value.
Arguments Rejected {T} reason.

(** A promise, seen from its end: [None] is a promise that never settles. *)
Definition Promise (T : Type) : Type := option (Settlement T).

(** [await promise], on a promise that settles. *)
Definition await {S T} (outcome : Settlement T) : JS S T :=
  match outcome with
  | Fulfilled value => ret value
  | Rejected reason => throw reason
  end.

(** The promise of an [async] function whose body resumes: fulfilled with
    what the body returns, rejected with what it throws. *)
Definition async {S A} (body : JS S A) : JS S (Promise A) :=
  fun m =>
    match body m with
    | (Normal a, m') => (Normal (Some (Fulfilled a)), m')
    | (Throw x, m') => (Normal (Some (Rejected x)), m')
    end.

(** [fromPromise] does nothing before its [await]; the machine it is run
    on here is the one it resumes on.  On a promise that never settles it
    never resumes, and its own promise never settles. *)
Definition fromPromise {S T E} `{TypeAssertion unknown E}
    (promise : Promise T) (mapError : option (Fn S unknown E))
  : JS S (Promise (Result T E)) :=
  match promise with
  | None => ret None
  | Some outcome =>
      async
        (try_catch
           (t <- await outcome ;; ret (IsOk (ok t)))
           (fun error =>
              e <- match mapError with
                   | Some mapError => call mapError error
                   | None => ret (type_assert error)
                   end ;;
              ret (IsErr (err e))))
  end.

(** The [for (const result of results)] loop of [all]; [values] is the
    array the loop pushes to.  [result.isErr()] is the method of the
    receiver's class, so the test selects the class. *)
Fixpoint all_loop {T E} (results : list (Result T E)) (values : list T)
  : Result (list T) E :=
  match results with
  | [] => ok values
  | result :: rest =>
      match result with
      | IsErr e => err (error e)
      | IsOk o => all_loop rest (values ++ [value o])%list
      end
  end.

Definition all {T E} (results : list (Result T E)) : Result (list T) E :=
  all_loop results [].

(** The object [{ oks, errs }] that [partition] returns. *)
Record Partition (T E : Type) : Type := mkPartition {
  oks : list T;
  errs : list E
}.
Arguments mkPartition {T E} oks errs.
Arguments oks {T E} p.
Arguments errs {T E} p.

(** The loop of [partition], with the two arrays it pushes to. *)
Fixpoint partition_loop {T E} (results : list (Result T E))
    (oks : list T) (errs : list E) : Partition T E :=
  match results with
  | [] => mkPartition oks errs
  | result :: rest =>
      match result with
      | IsOk o => partition_loop rest (oks ++ [value o])%list errs
      | IsErr e => partition_loop rest oks (errs ++ [error e])%list
      end
  end.

Definition partition {T E} (results : list (Result T E)) : Partition T E :=
  partition_loop results [] [].

(** ** examples/advanced.ts *)

(** [step1(input).andThen(step2)] *)
Definition pipeline {S A B C} (input : A)
    (step1 : Fn S A (Result B string)) (step2 : Fn S B (Result C string))
  : JS S (Result C string) :=
  r <- call step1 input ;; Result.andThen r step2.

Definition transform {S T U} (result : Result T string) (fn : Fn S T U)
  : JS S (Result U string) :=
  Result.map result fn.

(** [result.orElse(() => ok(fallback))] *)
Definition withFallback {S T} (result : Result T string) (fallback : T)
  : JS S (Result T string) :=
  Result.orElse result (pure_fn "() => ok(fallback)" (fun _ => IsOk (ok fallback))).

(** ** Vocabulary of the statements *)

(** A machine that has run nothing yet. *)
Definition initial {S} (s : S) : Machine S := mkMachine s [].

(** A Result that came out of one of the two constructor functions. *)
Inductive constructed {T E} : Result T E -> Prop :=
| constructed_ok (v : T) : constructed (IsOk (ok v))
| constructed_err (e : E) : constructed (IsErr (err e)).

(** The payloads of the Ok members, and of the Err members, of a list,
    in the order of the list. *)
Definition Ok_payloads {T E} (results : list (Result T E)) : list T :=
  flat_map (fun r => match r with IsOk o => [value o] | IsErr _ => [] end) results.

Definition Err_payloads {T E} (results : list (Result T E)) : list E :=
  flat_map (fun r => match r with IsOk _ => [] | IsErr e => [error e] end) results.

(** What [tryCatch] adds to the call log: [fn], then the mapper when it
    is supplied and [fn] threw. *)
Definition tryCatch_log {S T E}
    (fn : Fn S unit T) (mapError : option (Fn S unknown E)) (m : Machine S)
  : list string :=
  (fn_name fn ::
   match fst (fn_body fn tt (store m)), mapError with
   | Throw _, Some mapper => [fn_name mapper]
   | _, _ => []
   end)%list.

(** The functions of the spec's examples for [tryCatch]: one that returns
    42, one that throws the string "boom", and a mapper that tags what
    was caught. *)
Definition returns_42 : Fn unit unit nat := pure_fn "fn" (fun _ => 42).

Definition throws_boom : Fn unit unit nat :=
  mkFn "fn" (fun _ s => (Throw (js_string "boom"), s)).

Definition tag_caught : Fn unit unknown unknown :=
  pure_fn "mapError"
    (fun caught =>
       match caught with
       | js_string s => js_string ("mapped: " ++ s)
       | other => other
       end).

(** The settlement an [async] body's completion gives its promise. *)
Definition settle {A} (c : completion A) : Settlement A :=
  match c with
  | Normal a => Fulfilled a
  | Throw x => Rejected x
  end.

(** The function that returns what a promise is fulfilled with, or throws
    what it is rejected with. *)
Definition settles_as {S T} (name : string) (outcome : Settlement T) : Fn S unit T :=
  mkFn name (fun _ s =>
    (match outcome with Fulfilled v => Normal v | Rejected x => Throw x end, s)).

(** A mapper that itself throws. *)
Definition failing_mapper : Fn unit unknown unknown :=
  mkFn "mapError" (fun _ s => (Throw (js_string "mapper failed"), s)).

(** * Properties *)

Local Open Scope list_scope.

(** ** The monad and the call log *)

Section Host.
Context {S : Type}.

Lemma call_pure_fn {A B} (name : string) (f : A -> B) (a : A) (m : Machine S) :
  call (pure_fn name f) a m = (Normal (f a), mkMachine (store m) (calls m ++ [name])).
Proof. reflexivity. Qed.

Lemma call_logs_once {A B} (f : Fn S A B) (a : A) (m : Machine S) :
  calls (snd (call f a m)) = calls m ++ [fn_name f].
Proof. unfold call. destruct (fn_body f a (store m)); reflexivity. Qed.

End Host.

(** ** The loops of [all] and [partition] *)

Section Loops.
Context {T E : Type}.

(** The method tests used by the loops select the class of the receiver. *)
Lemma isErr_method_class (r : Result T E) :
  Result.isErr r = true <-> exists e, r = IsErr e.
Proof.
  destruct r as [o | e]; simpl; split.
  - discriminate.
  - intros [e ?]; discriminate.
  - eauto.
  - reflexivity.
Qed.

Lemma isOk_method_class (r : Result T E) :
  Result.isOk r = true <-> exists o, r = IsOk o.
Proof.
  destruct r as [o | e]; simpl; split.
  - eauto.
  - reflexivity.
  - discriminate.
  - intros [o ?]; discriminate.
Qed.

Lemma all_loop_Ok (os : list (Ok T)) :
  forall values, @all_loop T E (map IsOk os) values = ok (values ++ map value os).
Proof.
  induction os as [| o os IH]; intros values; simpl.
  - now rewrite app_nil_r.
  - rewrite IH, <- app_assoc. reflexivity.
Qed.

Lemma all_loop_first_Err (os : list (Ok T)) (e : Err E) (rest : list (Result T E)) :
  forall values, all_loop (map IsOk os ++ IsErr e :: rest) values = err (error e).
Proof.
  induction os as [| o os IH]; intros values; simpl.
  - reflexivity.
  - apply IH.
Qed.

(** Every list of Results is all Ok, or has a first Err. *)
Lemma results_split (results : list (Result T E)) :
  (exists os, results = map IsOk os) \/
  (exists os e rest, results = map IsOk os ++ IsErr e :: rest).
Proof.
  induction results as [| [o | e] results IH].
  - left. exists []. reflexivity.
  - destruct IH as [[os ->] | [os [e [rest ->]]]].
    + left. exists (o :: os). reflexivity.
    + right. exists (o :: os), e, rest. reflexivity.
  - right. exists [], e, results. reflexivity.
Qed.

Lemma partition_loop_spec (results : list (Result T E)) :
  forall oks errs,
    partition_loop results oks errs =
    mkPartition (oks ++ Ok_payloads results) (errs ++ Err_payloads results).
Proof.
  induction results as [| [o | e] results IH]; intros oks errs; simpl.
  - now rewrite !app_nil_r.
  - rewrite IH, <- app_assoc. reflexivity.
  - rewrite IH, <- app_assoc. reflexivity.
Qed.

Lemma partition_payloads (results : list (Result T E)) :
  partition results = mkPartition (Ok_payloads results) (Err_payloads results).
Proof. unfold partition. now rewrite partition_loop_spec. Qed.

Lemma payloads_length (results : list (Result T E)) :
  List.length (Ok_payloads results) + List.length (Err_payloads results) = List.length results.
Proof.
  induction results as [| [o | e] results IH]; simpl; lia.
Qed.

End Loops.

(** C1. [all]: when every element is Ok the result is Ok of the unwrapped
    values in the original order; otherwise it is an Err holding the error
    of the first Err in iteration order, whatever follows it; the empty
    list gives Ok of the empty list.  The two shapes cover every list. *)
Theorem all_first_error_wins (T E : Type) :
  (forall os : list (Ok T), @all T E (map IsOk os) = ok (map value os)) /\
  (forall vs : list T, @all T E (map (fun v => IsOk (ok v)) vs) = ok vs) /\
  (forall (os : list (Ok T)) (e : Err E) (rest : list (Result T E)),
      all (map IsOk os ++ IsErr e :: rest) = err (error e)) /\
  (forall (os : list (Ok T)) (x : E) (rest : list (Result T E)),
      all (map IsOk os ++ IsErr (err x) :: rest) = err x) /\
  @all T E [] = ok [] /\
  (forall results : list (Result T E),
      (exists os, results = map IsOk os /\ all results = ok (map value os)) \/
      (exists os e rest, results = map IsOk os ++ IsErr e :: rest /\
                         all results = err (error e))).
Proof.
  assert (HOk : forall os : list (Ok T), @all T E (map IsOk os) = ok (map value os)).
  { intros os. unfold all. now rewrite all_loop_Ok. }
  assert (HErr : forall (os : list (Ok T)) (e : Err E) rest,
             all (map IsOk os ++ IsErr e :: rest) = err (error e)).
  { intros os e rest. unfold all. apply all_loop_first_Err. }
  split; [exact HOk |].
  split.
  { intros vs. rewrite <- (map_map ok IsOk), HOk, map_map. simpl.
    now rewrite map_id. }
  split; [exact HErr |].
  split; [intros os x rest; apply (HErr os (err x) rest) |].
  split; [reflexivity |].
  intros results. destruct (results_split results) as [[os ->] | [os [e [rest ->]]]].
  - left. exists os. auto.
  - right. exists os, e, rest. auto.
Qed.

(** The examples of [all] in the spec. *)
Example all_three_oks :
  @all nat string [IsOk (ok 1); IsOk (ok 2); IsOk (ok 3)] = ok [1; 2; 3].
Proof. reflexivity. Qed.

Example all_reports_first_of_two_errors :
  @all nat string [IsOk (ok 1); IsErr (err "e1"%string); IsErr (err "e2"%string)]
  = err "e1"%string.
Proof. reflexivity. Qed.

(** C3. [partition]: one pass over the whole list; the first component
    holds the payloads of all Ok members and the second the payloads of
    all Err members, each in input order; nothing is skipped after an Err;
    the empty list gives two empty lists.  (The components are the fields
    [oks] and [errs] of the returned object.) *)
Theorem partition_buckets (T E : Type) :
  (forall results : list (Result T E),
      oks (partition results) = Ok_payloads results /\
      errs (partition results) = Err_payloads results /\
      List.length (oks (partition results)) + List.length (errs (partition results))
        = List.length results) /\
  (forall (o : Ok T), @partition T E [IsOk o] = mkPartition [value o] []) /\
  (forall (e : Err E), @partition T E [IsErr e] = mkPartition [] [error e]) /\
  (forall front back : list (Result T E),
      partition (front ++ back) =
      mkPartition (oks (partition front) ++ oks (partition back))
                  (errs (partition front) ++ errs (partition back))) /\
  @partition T E [] = mkPartition [] [].
Proof.
  repeat split; try reflexivity.
  - now rewrite partition_payloads.
  - now rewrite partition_payloads.
  - rewrite partition_payloads. apply payloads_length.
  - intros front back. rewrite !partition_payloads. simpl.
    unfold Ok_payloads, Err_payloads. now rewrite !flat_map_app.
Qed.

(** The example of [partition] in the spec. *)
Example partition_two_and_two :
  @partition nat string
    [IsOk (ok 1); IsErr (err "a"%string); IsOk (ok 2); IsErr (err "b"%string)]
  = mkPartition [1; 2] ["a"%string; "b"%string].
Proof. reflexivity. Qed.

(** ** The combinators of [Ok] and [Err] *)

(** C2. [Ok(v).andThen(f)] is one invocation of [f] on [v]: it ends the
    way [f] ends, with the very Result [f] returns (nothing is wrapped
    around it), and the log gains exactly the entry of that invocation.
    [Err(e).andThen(f)] returns [Err(e)] and leaves the machine as it
    was: [f] is not invoked. *)
Theorem andThen_flattens_and_short_circuits (S T U E : Type) :
  (forall (v : T) (f : Fn S T (Result U E)) (m : Machine S),
      Result.andThen (ok v) f m = call f v m /\
      fst (Result.andThen (ok v) f m) = fst (fn_body f v (store m)) /\
      store (snd (Result.andThen (ok v) f m)) = snd (fn_body f v (store m)) /\
      calls (snd (Result.andThen (ok v) f m)) = calls m ++ [fn_name f]) /\
  (forall (e : E) (f : Fn S T (Result U E)) (m : Machine S),
      Result.andThen (err e) f m = (Normal (IsErr (err e)), m) /\
      invocations (fn_name f) (snd (Result.andThen (err e) f m))
        = invocations (fn_name f) m).
Proof.
  split.
  - intros v f m. simpl. unfold Ok.andThen, call; simpl.
    destruct (fn_body f v (store m)) as [c s']; simpl. auto.
  - intros e f m. split; reflexivity.
Qed.

(** C7. [Ok(v).mapErr(f)] returns [Ok(v)] and [Err(e).map(f)] returns
    [Err(e)]; in both the machine is left as it was, so [f] is not
    invoked. *)
Theorem map_mapErr_leave_other_variant (S T U E F : Type) :
  (forall (v : T) (f : Fn S E F) (m : Machine S),
      Result.mapErr (ok v) f m = (Normal (IsOk (ok v)), m) /\
      invocations (fn_name f) (snd (Result.mapErr (ok v) f m))
        = invocations (fn_name f) m) /\
  (forall (e : E) (f : Fn S T U) (m : Machine S),
      Result.map (err e) f m = (Normal (IsErr (err e)), m) /\
      invocations (fn_name f) (snd (Result.map (err e) f m))
        = invocations (fn_name f) m).
Proof.
  split; intros; split; reflexivity.
Qed.

(** Mapping twice and mapping once with the composed arrow function end
    the same way and leave the same store, whatever the two functions do:
    both run [f], then [g] on its value. *)
Lemma map_fusion {S T U V E : Type}
    (v : T) (f : Fn S T U) (g : Fn S U V) (name : string) (m : Machine S) :
  let twice := (r <- Result.map (E:=E) (ok v) f ;; Result.map r g) m in
  let once := Result.map (E:=E) (ok v) (arrow_compose name f g) m in
  fst twice = fst once /\ store (snd twice) = store (snd once).
Proof.
  simpl. unfold Ok.map, bind, call, ret; simpl.
  destruct (fn_body f v (store m)) as [[u | x] s1]; simpl; [| auto].
  unfold Ok.map, bind, call, ret; simpl.
  destruct (fn_body g u s1) as [[w | x] s2]; simpl; auto.
Qed.

(** C8. Functor law: for pure [f] and [g], [Ok(v).map(f).map(g)] and
    [Ok(v).map(x => g(f(x)))] both evaluate to [Ok(g(f(v)))], and neither
    touches the store. *)
Theorem map_functor_law (S T U V E : Type)
    (v : T) (f : T -> U) (g : U -> V) (nf ng nh : string) (m : Machine S) :
  let twice :=
    (r <- Result.map (E:=E) (ok v) (pure_fn nf f) ;; Result.map r (pure_fn ng g)) m in
  let once :=
    Result.map (E:=E) (ok v) (arrow_compose nh (pure_fn nf f) (pure_fn ng g)) m in
  fst twice = fst once /\
  fst once = Normal (IsOk (ok (g (f v)))) /\
  store (snd twice) = store m /\
  store (snd once) = store m.
Proof.
  repeat split; reflexivity.
Qed.

(** C9. [unwrapOr] returns the held value on Ok and the fallback on Err,
    and on every receiver it ends normally with the machine untouched. *)
Theorem unwrapOr_never_fails (S T E : Type) :
  (forall (v d : T) (m : Machine S),
      Result.unwrapOr (E:=E) (ok v) d m = (Normal v, m)) /\
  (forall (e : E) (d : T) (m : Machine S),
      Result.unwrapOr (err e) d m = (Normal d, m)) /\
  (forall (r : Result T E) (d : T) (m : Machine S),
      exists x, Result.unwrapOr r d m = (Normal x, m)).
Proof.
  split; [reflexivity |]. split; [reflexivity |].
  intros [o | e] d m; simpl.
  - exists (value o). reflexivity.
  - exists d. reflexivity.
Qed.

(** C10. On a Result made by [ok] or [err], exactly one of the fields
    [ok] and [err] is true ([ok(v)] has [ok = true], [err = false];
    [err(e)] has [ok = false], [err = true]); the free functions [isOk]
    and [isErr] read those fields, agree with the methods, and are each
    other's negation. *)
Theorem discriminant_invariant (T E : Type) (r : Result T E) :
  constructed r ->
  xorb (Result.ok r) (Result.err r) = true /\
  ((exists v, r = IsOk (ok v) /\ Result.ok r = true /\ Result.err r = false) \/
   (exists e, r = IsErr (err e) /\ Result.ok r = false /\ Result.err r = true)) /\
  isOk r = Result.ok r /\
  isErr r = Result.err r /\
  isOk r = Result.isOk r /\
  isErr r = Result.isErr r /\
  isOk r = negb (isErr r).
Proof.
  intros [v | e]; (split; [reflexivity |]); (split; [| repeat split]).
  - left. exists v. repeat split.
  - right. exists e. repeat split.
Qed.

Lemma discriminant_invariant_witness :
  constructed (@IsErr nat string (err "failure")) /\
  xorb (Result.ok (@IsErr nat string (err "failure")))
       (Result.err (@IsErr nat string (err "failure"))) = true /\
  isErr (@IsErr nat string (err "failure"))
    = Result.isErr (@IsErr nat string (err "failure")).
Proof.
  pose proof (discriminant_invariant nat string (IsErr (err "failure"))
                (constructed_err "failure"))
    as (exactly_one & _ & _ & _ & _ & agree & _).
  split; [apply constructed_err | split; [exact exactly_one | exact agree]].
Defined.

(** The fields alone do not make the invariant: it is the constructors
    that establish it. *)
Example unconstructed_record_breaks_agreement :
  isOk (@IsOk nat string (mkOk false false 0)) = false /\
  Result.isOk (@IsOk nat string (mkOk false false 0)) = true.
Proof. split; reflexivity. Qed.

(** ** The unwrap family *)

(** C4, as amended. [Ok(v).unwrap()] returns [v].  [Err(e).unwrap()]
    never returns: for every [e] it ends in a throw.  When the string
    conversion of [e] yields [s], the thrown value is an Error object
    whose message is ["Called unwrap on Err: "] followed by [s]; when the
    conversion itself throws, what it threw is what [unwrap] throws. *)
Theorem unwrap_returns_or_throws (S T E : Type) `{ToString S E} :
  (forall (v : T) (m : Machine S),
      Result.unwrap (E:=E) (ok v) m = (Normal v, m)) /\
  (forall (e : E) (m : Machine S),
      exists x m',
        Result.unwrap (T:=T) (err e) m = (Throw x, m') /\
        (forall s m1,
            to_string e m = (Normal s, m1) ->
            x = new_Error ("Called unwrap on Err: " ++ s)%string /\
            message_of x = Some ("Called unwrap on Err: " ++ s)%string /\
            m' = m1) /\
        (forall y m1,
            to_string e m = (Throw y, m1) -> x = y /\ m' = m1)).
Proof.
  split; [reflexivity |].
  intros e m. simpl. unfold Err.unwrap, bind; simpl.
  destruct (to_string e m) as [[s | x] m1].
  - eexists _, _. split; [reflexivity |]. split.
    + intros s' m1' eq. inversion eq; subst. auto.
    + intros y m1' eq. discriminate eq.
  - exists x, m1. split; [reflexivity |]. split.
    + intros s m1' eq. discriminate eq.
    + intros y m1' eq. inversion eq; subst. auto.
Qed.

Lemma unwrap_returns_or_throws_witness :
  to_string (S:=unit) "failure"%string (initial tt)
    = (Normal "failure"%string, initial tt) /\
  Result.unwrap (S:=unit) (T:=nat) (err "failure"%string) (initial tt)
    = (Throw (new_Error "Called unwrap on Err: failure"), initial tt).
Proof.
  split; [reflexivity |].
  destruct (proj2 (unwrap_returns_or_throws unit nat string)
              "failure"%string (initial tt)) as (x & m' & run & msg & _).
  destruct (msg "failure"%string (initial tt) eq_refl) as (-> & _ & ->).
  exact run.
Defined.

(** C4, as stated, fails: the error of [err(Symbol("tag")).unwrap()]
    carries no string conversion of the payload.  The template literal
    throws before any Error is built, so there is no [s] for which the
    thrown value has the message ["Called unwrap on Err: "] followed by
    [s]; what is thrown is the conversion's TypeError. *)
Lemma unwrap_message_counterexample :
  (~ exists s x m',
        Result.unwrap (S:=unit) (T:=nat) (err (js_symbol "tag")) (initial tt)
          = (Throw x, m') /\
        message_of x = Some ("Called unwrap on Err: " ++ s)%string) /\
  (~ exists s m',
        to_string (S:=unit) (js_symbol "tag") (initial tt) = (Normal s, m')) /\
  Result.unwrap (S:=unit) (T:=nat) (err (js_symbol "tag")) (initial tt)
    = (Throw (js_Error "TypeError" "Cannot convert a Symbol value to a string"),
       initial tt).
Proof.
  split; [| split].
  - intros (s & x & m' & run & msg).
    cbv in run. inversion run; subst. discriminate msg.
  - intros (s & m' & conv). discriminate conv.
  - reflexivity.
Qed.

(** A payload whose string conversion throws: [unwrap] still throws, but
    what it throws is the conversion's own TypeError. *)
Example unwrap_symbol_payload :
  Result.unwrap (S:=unit) (T:=nat) (err (js_symbol "tag")) (initial tt)
  = (Throw (js_Error "TypeError" "Cannot convert a Symbol value to a string"),
     initial tt).
Proof. reflexivity. Qed.

(** C5, as amended. [Err(e).unwrapErr()] returns [e].
    [Ok(v).unwrapErr()] throws an Error object whose message is
    ["Called unwrapErr on Ok"]. *)
Theorem unwrapErr_returns_or_throws (S T E : Type) :
  (forall (e : E) (m : Machine S),
      Result.unwrapErr (T:=T) (err e) m = (Normal e, m)) /\
  (forall (v : T) (m : Machine S),
      Result.unwrapErr (E:=E) (ok v) m
        = (Throw (new_Error "Called unwrapErr on Ok"), m) /\
      message_of (new_Error "Called unwrapErr on Ok")
        = Some "Called unwrapErr on Ok"%string).
Proof.
  split; intros; [| split]; reflexivity.
Qed.

(** C5, as stated, fails: [ok(42).unwrapErr()] does not throw anything
    whose message is ["called unwrapErr on a success value"]. *)
Lemma unwrapErr_message_counterexample :
  ~ (exists x m',
        Result.unwrapErr (S:=unit) (E:=string) (ok 42) (initial tt) = (Throw x, m') /\
        message_of x = Some "called unwrapErr on a success value"%string).
Proof.
  intros (x & m' & run & msg).
  cbv in run. inversion run; subst. discriminate msg.
Qed.

(** ** [tryCatch] *)

(** C6. [tryCatch(fn, mapError)] invokes [fn] once, first.  When [fn]
    returns [r] the result is [Ok(r)] and no mapper runs.  When [fn]
    throws [c]: without a mapper the result is [Err(c)], the caught value
    itself (under the type assertion [as E], the identity when [E] is
    [unknown]); with a mapper the mapper is invoked once on [c], and the
    result is [Err] of what it returns. *)
Theorem tryCatch_wraps (S T E : Type) `{TypeAssertion unknown E}
    (fn : Fn S unit T) (m : Machine S) :
  (forall mapError,
      calls (snd (tryCatch fn mapError m)) = calls m ++ tryCatch_log fn mapError m) /\
  (forall mapError,
      (forall mapper, mapError = Some mapper -> fn_name mapper <> fn_name fn) ->
      invocations (fn_name fn) (snd (tryCatch fn mapError m))
        = 1 + invocations (fn_name fn) m) /\
  (forall r s' mapError,
      fn_body fn tt (store m) = (Normal r, s') ->
      tryCatch fn mapError m
        = (Normal (IsOk (ok r)), mkMachine s' (calls m ++ [fn_name fn]))) /\
  (forall c s',
      fn_body fn tt (store m) = (Throw c, s') ->
      tryCatch fn None m
        = (Normal (IsErr (err (type_assert c))),
           mkMachine s' (calls m ++ [fn_name fn])) /\
      tryCatch (E:=unknown) fn None m
        = (Normal (IsErr (err c)), mkMachine s' (calls m ++ [fn_name fn]))) /\
  (forall c s' mapper,
      fn_body fn tt (store m) = (Throw c, s') ->
      tryCatch fn (Some mapper) m
        = (e <- call mapper c ;; ret (IsErr (err e)))
            (mkMachine s' (calls m ++ [fn_name fn]))) /\
  (forall c s' mapper e s'',
      fn_body fn tt (store m) = (Throw c, s') ->
      fn_body mapper c s' = (Normal e, s'') ->
      tryCatch fn (Some mapper) m
        = (Normal (IsErr (err e)),
           mkMachine s'' (calls m ++ [fn_name fn; fn_name mapper]))).
Proof.
  assert (log : forall mapError,
             calls (snd (tryCatch fn mapError m))
             = calls m ++ tryCatch_log fn mapError m).
  { intros mapError. unfold tryCatch, tryCatch_log, try_catch, bind, call, ret.
    destruct (fn_body fn tt (store m)) as [[r | c] s']; simpl; [reflexivity |].
    destruct mapError as [mapper |]; simpl; [| reflexivity].
    destruct (fn_body mapper c s') as [[e | x] s'']; simpl;
      now rewrite <- app_assoc. }
  split; [exact log |]. split.
  { intros mapError fresh. unfold invocations. rewrite log, count_occ_app.
    unfold tryCatch_log. rewrite count_occ_cons_eq by reflexivity.
    destruct (fst (fn_body fn tt (store m))) as [r | c]; simpl; [lia |].
    destruct mapError as [mapper |]; simpl; [| lia].
    destruct (string_dec (fn_name mapper) (fn_name fn)) as [same | _]; [| lia].
    now elim (fresh mapper eq_refl). }
  unfold tryCatch, try_catch, bind, call, ret.
  repeat apply conj.
  - intros r s' mapError run. now rewrite run.
  - intros c s' run. now rewrite run.
  - intros c s' mapper run. now rewrite run.
  - intros c s' mapper e s'' run mapped. rewrite run; simpl. rewrite mapped; simpl.
    now rewrite <- app_assoc.
Qed.

Lemma tryCatch_wraps_witness :
  (fn_body returns_42 tt (store (initial tt)) = (Normal 42, tt) /\
   tryCatch (E:=unknown) returns_42 None (initial tt)
     = (Normal (IsOk (ok 42)), mkMachine tt ["fn"%string])) /\
  (fn_body throws_boom tt (store (initial tt)) = (Throw (js_string "boom"), tt) /\
   tryCatch throws_boom None (initial tt)
     = (Normal (IsErr (err (js_string "boom"))), mkMachine tt ["fn"%string])) /\
  (fn_body throws_boom tt (store (initial tt)) = (Throw (js_string "boom"), tt) /\
   fn_body tag_caught (js_string "boom") tt = (Normal (js_string "mapped: boom"), tt) /\
   tryCatch throws_boom (Some tag_caught) (initial tt)
     = (Normal (IsErr (err (js_string "mapped: boom"))),
        mkMachine tt ["fn"%string; "mapError"%string])) /\
  ((forall mapper, Some tag_caught = Some mapper ->
                   fn_name mapper <> fn_name throws_boom) /\
   invocations "fn" (snd (tryCatch throws_boom (Some tag_caught) (initial tt))) = 1).
Proof.
  assert (fresh : forall mapper, Some tag_caught = Some mapper ->
                                 fn_name mapper <> fn_name throws_boom).
  { intros mapper eq. inversion eq; subst. discriminate. }
  split; [| split; [| split]].
  - split; [reflexivity |].
    exact (proj1 (proj2 (proj2 (tryCatch_wraps unit nat unknown returns_42 (initial tt))))
             42 tt None eq_refl).
  - split; [reflexivity |].
    exact (proj2 (proj1 (proj2 (proj2 (proj2
             (tryCatch_wraps unit nat unknown throws_boom (initial tt)))))
             (js_string "boom") tt eq_refl)).
  - split; [reflexivity |]. split; [reflexivity |].
    exact (proj2 (proj2 (proj2 (proj2 (proj2
             (tryCatch_wraps unit nat unknown throws_boom (initial tt))))))
             (js_string "boom") tt tag_caught (js_string "mapped: boom") tt
             eq_refl eq_refl).
  - split; [exact fresh |].
    exact (proj1 (proj2 (tryCatch_wraps unit nat unknown throws_boom (initial tt)))
             (Some tag_caught) fresh).
Defined.

(** * Further properties of the library *)

(** ** Laws of the combinators *)

(** X1. [andThen] is associative: chaining [f] and then [g] on a Result,
    and chaining once the arrow function [x => f(x).andThen(g)], end the
    same way and leave the same store, on either variant and whatever the
    two functions do. *)
Theorem andThen_associative {S T U V E : Type}
    (r : Result T E) (f : Fn S T (Result U E)) (g : Fn S U (Result V E))
    (name : string) (m : Machine S) :
  let chained := (r1 <- Result.andThen r f ;; Result.andThen r1 g) m in
  let nested :=
    Result.andThen r
      (lambda name (fun x => r1 <- call f x ;; Result.andThen r1 g)) m in
  fst chained = fst nested /\ store (snd chained) = store (snd nested).
Proof.
  destruct r as [o | e]; simpl; [| split; reflexivity].
  unfold Ok.andThen, lambda, bind, call; simpl.
  destruct (fn_body f (value o) (store m)) as [[[o1 | e1] | x] s1]; simpl;
    try (split; reflexivity).
  unfold Ok.andThen, call; simpl.
  destruct (fn_body g (value o1) s1) as [c s2]; simpl. split; reflexivity.
Qed.

(** X2. [ok] is a right identity of [andThen]: on a Result made by the
    constructor functions, [r.andThen(ok)] returns a Result equal to [r]
    and leaves the store alone. *)
Theorem andThen_ok_right_identity {S T E : Type}
    (r : Result T E) (name : string) (m : Machine S) :
  constructed r ->
  fst (Result.andThen r (pure_fn name (fun v => IsOk (ok v))) m) = Normal r /\
  store (snd (Result.andThen r (pure_fn name (fun v => IsOk (ok v))) m)) = store m.
Proof.
  intros [v | e]; split; reflexivity.
Qed.

Lemma andThen_ok_right_identity_witness :
  constructed (@IsOk nat string (ok 10)) /\
  fst (Result.andThen (S:=unit) (@IsOk nat string (ok 10))
         (pure_fn "ok" (fun v => IsOk (ok v))) (initial tt))
  = Normal (IsOk (ok 10)).
Proof.
  split; [apply constructed_ok |].
  exact (proj1 (andThen_ok_right_identity (S:=unit) (IsOk (ok 10)) "ok"
                  (initial tt) (constructed_ok 10))).
Defined.

(** X3. [map] is [andThen] followed by [ok]: [r.map(f)] and
    [r.andThen(x => ok(f(x)))] end the same way and leave the same store,
    on either variant and whatever [f] does. *)
Theorem map_is_andThen_ok {S T U E : Type}
    (r : Result T E) (f : Fn S T U) (name : string) (m : Machine S) :
  let mapped := Result.map r f m in
  let chained :=
    Result.andThen r (lambda name (fun x => u <- call f x ;; ret (IsOk (ok u)))) m in
  fst mapped = fst chained /\ store (snd mapped) = store (snd chained).
Proof.
  destruct r as [o | e]; simpl; [| split; reflexivity].
  unfold Ok.map, Ok.andThen, lambda, bind, call, ret; simpl.
  destruct (fn_body f (value o) (store m)) as [[u | x] s1]; simpl;
    split; reflexivity.
Qed.

(** X4. [mapErr] on an Err replaces the error by what [f] returns, and
    mapping the error twice is mapping it once with the composed arrow
    function: same end and same store, on either variant and whatever
    the functions do. *)
Theorem mapErr_functor_law {S T E F G : Type}
    (r : Result T E) (f : Fn S E F) (g : Fn S F G) (name : string) (m : Machine S) :
  (forall e x s',
      r = IsErr e -> fn_body f (error e) (store m) = (Normal x, s') ->
      Result.mapErr r f m
      = (Normal (IsErr (err x)), mkMachine s' (calls m ++ [fn_name f]))) /\
  let twice := (r1 <- Result.mapErr r f ;; Result.mapErr r1 g) m in
  let once := Result.mapErr r (arrow_compose name f g) m in
  fst twice = fst once /\ store (snd twice) = store (snd once).
Proof.
  split.
  - intros e x s' -> run. simpl. unfold Err.mapErr, bind, call, ret.
    now rewrite run.
  - destruct r as [o | e]; simpl; [split; reflexivity |].
    unfold Err.mapErr, bind, call, ret; simpl.
    destruct (fn_body f (error e) (store m)) as [[x | y] s1]; simpl;
      [| split; reflexivity].
    unfold Err.mapErr, bind, call, ret; simpl.
    destruct (fn_body g x s1) as [[z | y] s2]; simpl; split; reflexivity.
Qed.

Lemma mapErr_functor_law_witness :
  @IsErr nat string (err "failure") = IsErr (err "failure") /\
  fn_body (pure_fn (S:=unit) "f" (fun e => "Error: " ++ e)%string)
    "failure"%string tt = (Normal "Error: failure"%string, tt) /\
  Result.mapErr (@IsErr nat string (err "failure"))
    (pure_fn "f" (fun e => "Error: " ++ e)%string) (initial tt)
  = (Normal (IsErr (err "Error: failure"%string)), mkMachine tt ["f"%string]).
Proof.
  split; [reflexivity |]. split; [reflexivity |].
  exact (proj1 (mapErr_functor_law (S:=unit) (T:=nat)
                  (IsErr (err "failure"%string))
                  (pure_fn "f" (fun e => "Error: " ++ e)%string)
                  (pure_fn "g" (fun e : string => e)) "h" (initial tt))
           (err "failure"%string) "Error: failure"%string tt eq_refl eq_refl).
Defined.

(** X5. Mapping with the identity function changes nothing: on a Result
    made by the constructor functions, [r.map(x => x)] and
    [r.mapErr(e => e)] both return a Result equal to [r]. *)
Theorem map_identity {S T E : Type}
    (r : Result T E) (name : string) (m : Machine S) :
  constructed r ->
  fst (Result.map r (pure_fn name (fun x => x)) m) = Normal r /\
  fst (Result.mapErr r (pure_fn name (fun e => e)) m) = Normal r.
Proof.
  intros [v | e]; split; reflexivity.
Qed.

Lemma map_identity_witness :
  constructed (@IsOk nat string (ok 10)) /\
  fst (Result.map (S:=unit) (@IsOk nat string (ok 10))
         (pure_fn "id" (fun x => x)) (initial tt)) = Normal (IsOk (ok 10)).
Proof.
  split; [apply constructed_ok |].
  exact (proj1 (map_identity (S:=unit) (IsOk (ok 10)) "id" (initial tt)
                  (constructed_ok 10))).
Defined.

(** X6. [map] and [mapErr] commute: [r.map(f).mapErr(g)] and
    [r.mapErr(g).map(f)] are the same computation, result, store and
    call log alike, because on either variant only one of [f] and [g] is
    ever invoked. *)
Theorem map_mapErr_commute {S T U E F : Type}
    (r : Result T E) (f : Fn S T U) (g : Fn S E F) (m : Machine S) :
  (r1 <- Result.map r f ;; Result.mapErr r1 g) m
  = (r1 <- Result.mapErr r g ;; Result.map r1 f) m.
Proof.
  destruct r as [o | e];
    cbv [Result.map Result.mapErr Ok.map Ok.mapErr Err.map Err.mapErr
         bind call ret store calls].
  - destruct m as [s log].
    destruct (fn_body f (value o) s) as [[u | x] s1]; reflexivity.
  - destruct m as [s log].
    destruct (fn_body g (error e) s) as [[u | x] s1]; reflexivity.
Qed.

(** ** [match] *)

(** X7. [match] runs exactly one of its two handlers, once: the [ok]
    handler on the value of an Ok, the [err] handler on the error of an
    Err.  It ends the way that handler ends, and the call log gains that
    one entry and nothing else. *)
Theorem match_runs_one_handler {S T E U : Type}
    (r : Result T E) (matcher : Matcher S T E U) (m : Machine S) :
  (exists o, r = IsOk o /\
             Result.match_ r matcher m = call (matcher_ok matcher) (value o) m /\
             calls (snd (Result.match_ r matcher m))
               = calls m ++ [fn_name (matcher_ok matcher)]) \/
  (exists e, r = IsErr e /\
             Result.match_ r matcher m = call (matcher_err matcher) (error e) m /\
             calls (snd (Result.match_ r matcher m))
               = calls m ++ [fn_name (matcher_err matcher)]).
Proof.
  destruct r as [o | e]; [left; exists o | right; exists e];
    (split; [reflexivity |]); (split; [reflexivity |]); apply call_logs_once.
Qed.

(** X8. Taking a Result apart with [match] and putting it together again
    with the constructor functions gives the Result back:
    [r.match({ ok: v => ok(v), err: e => err(e) })] equals [r] when [r]
    was made by the constructor functions. *)
Theorem match_rebuilds {S T E : Type}
    (r : Result T E) (name_ok name_err : string) (m : Machine S) :
  constructed r ->
  fst (Result.match_ r
         (mkMatcher (pure_fn name_ok (fun v => IsOk (ok v)))
                    (pure_fn name_err (fun e => IsErr (err e)))) m)
  = Normal r.
Proof.
  intros [v | e]; reflexivity.
Qed.

Lemma match_rebuilds_witness :
  constructed (@IsErr nat string (err "failure")) /\
  fst (Result.match_ (S:=unit) (@IsErr nat string (err "failure"))
         (mkMatcher (pure_fn "ok" (fun v => IsOk (ok v)))
                    (pure_fn "err" (fun e => IsErr (err e)))) (initial tt))
  = Normal (IsErr (err "failure"%string)).
Proof.
  split; [apply constructed_err |].
  exact (match_rebuilds (S:=unit) (IsErr (err "failure"%string)) "ok" "err"
           (initial tt) (constructed_err "failure"%string)).
Defined.

(** X9. [unwrapOr] is a [match]: [r.unwrapOr(d)] returns what
    [r.match({ ok: v => v, err: _ => d })] returns, on either variant. *)
Theorem unwrapOr_is_match {S T E : Type}
    (r : Result T E) (d : T) (name_ok name_err : string) (m : Machine S) :
  fst (Result.unwrapOr r d m)
  = fst (Result.match_ r
           (mkMatcher (pure_fn name_ok (fun v => v))
                      (pure_fn name_err (fun _ => d))) m).
Proof.
  destruct r as [o | e]; reflexivity.
Qed.

(** ** The invariant of the discriminant fields *)

(** X10. The library keeps the invariant of the constructor functions:
    what [map] and [mapErr] return on a constructed Result is
    constructed, and what [all] and [tryCatch] return is constructed
    whatever they are given. *)
Theorem library_keeps_constructed {S T U E F : Type} `{TypeAssertion unknown E} :
  (forall (r : Result T E) (f : Fn S T U) (m : Machine S) r' m',
      constructed r -> Result.map r f m = (Normal r', m') -> constructed r') /\
  (forall (r : Result T E) (f : Fn S E F) (m : Machine S) r' m',
      constructed r -> Result.mapErr r f m = (Normal r', m') -> constructed r') /\
  (forall results : list (Result T E), constructed (all results)) /\
  (forall (fn : Fn S unit T) (mapError : option (Fn S unknown E)) (m : Machine S)
          r' m',
      tryCatch fn mapError m = (Normal r', m') -> constructed r').
Proof.
  repeat apply conj.
  - intros r f m r' m' [v | e]; simpl.
    + unfold Ok.map, bind, call, ret; simpl.
      destruct (fn_body f v (store m)) as [[u | x] s1]; intros run;
        inversion run. apply constructed_ok.
    + intros run; inversion run. apply constructed_err.
  - intros r f m r' m' [v | e]; simpl.
    + intros run; inversion run. apply constructed_ok.
    + unfold Err.mapErr, bind, call, ret; simpl.
      destruct (fn_body f e (store m)) as [[u | x] s1]; intros run;
        inversion run. apply constructed_err.
  - intros results.
    destruct (results_split results) as [[os ->] | [os [e [rest ->]]]]; unfold all.
    + rewrite all_loop_Ok. apply constructed_ok.
    + rewrite all_loop_first_Err. apply constructed_err.
  - intros fn mapError m r' m'. unfold tryCatch, try_catch, bind, call, ret.
    destruct (fn_body fn tt (store m)) as [[r | c] s1]; simpl.
    + intros run; inversion run. apply constructed_ok.
    + destruct mapError as [mapper |]; simpl.
      * destruct (fn_body mapper c s1) as [[e | x] s2]; intros run;
          inversion run. apply constructed_err.
      * intros run; inversion run. apply constructed_err.
Qed.

Lemma library_keeps_constructed_witness :
  constructed (@IsOk nat unknown (ok 10)) /\
  Result.map (S:=unit) (@IsOk nat unknown (ok 10)) (pure_fn "double" (fun x => x * 2))
    (initial tt) = (Normal (IsOk (ok 20)), mkMachine tt ["double"%string]) /\
  constructed (@IsOk nat unknown (ok 20)).
Proof.
  split; [apply constructed_ok |]. split; [reflexivity |].
  exact (proj1 (library_keeps_constructed (S:=unit) (T:=nat) (U:=nat) (E:=unknown)
                  (F:=unknown))
           (IsOk (ok 10)) (pure_fn "double" (fun x => x * 2)) (initial tt)
           (IsOk (ok 20)) (mkMachine tt ["double"%string])
           (constructed_ok 10) eq_refl).
Defined.

(** A record with the fields of an Err but the flags of neither variant:
    [all] reports its error in a well-formed Err. *)
Example all_rewraps_the_error :
  @all nat string [IsErr (mkErr false false "e1"%string)] = err "e1"%string.
Proof. reflexivity. Qed.

(** ** [unwrap] against [unwrapErr] *)

(** X11. On every Result exactly one of [unwrap] and [unwrapErr] returns
    and the other throws, and the methods [isOk] and [isErr] tell which:
    where [isOk()] holds [unwrap] returns the value, with no string
    conversion run, and [unwrapErr] throws; where [isErr()] holds
    [unwrapErr] returns the error and [unwrap] throws. *)
Theorem unwrap_xor_unwrapErr {S T E : Type} `{ToString S E}
    (r : Result T E) (m : Machine S) :
  (Result.isOk r = true /\ Result.isErr r = false /\
   (exists v, Result.unwrap r m = (Normal v, m)) /\
   (exists x, Result.unwrapErr r m = (Throw x, m))) \/
  (Result.isErr r = true /\ Result.isOk r = false /\
   (exists e, Result.unwrapErr r m = (Normal e, m)) /\
   (exists x m', Result.unwrap r m = (Throw x, m'))).
Proof.
  destruct r as [o | e]; [left | right]; repeat split; simpl.
  - exists (value o). reflexivity.
  - eexists. reflexivity.
  - exists (error e). reflexivity.
  - unfold Err.unwrap, bind.
    destruct (to_string (error e) m) as [[s | x] m1]; eexists _, _; reflexivity.
Qed.

(** ** [all] and [partition] together *)

Lemma Ok_payloads_all_Ok {T E : Type} (os : list (Ok T)) :
  @Ok_payloads T E (map IsOk os) = map value os.
Proof. induction os as [| o os IH]; simpl; [| rewrite <- IH]; reflexivity. Qed.

Lemma Err_payloads_all_Ok {T E : Type} (os : list (Ok T)) :
  @Err_payloads T E (map IsOk os) = [].
Proof. induction os as [| o os IH]; simpl; auto. Qed.

Lemma Err_payloads_first_Err {T E : Type}
    (os : list (Ok T)) (e : Err E) (rest : list (Result T E)) :
  Err_payloads (map IsOk os ++ IsErr e :: rest) = error e :: Err_payloads rest.
Proof.
  unfold Err_payloads. rewrite flat_map_app. fold (@Err_payloads T E (map IsOk os)).
  now rewrite Err_payloads_all_Ok.
Qed.

(** X12. [all] and [partition] agree: [all(results)] is Ok exactly when
    [partition(results).errs] is empty, and then it holds
    [partition(results).oks]; otherwise it is Err of the first element of
    [partition(results).errs]. *)
Theorem all_agrees_with_partition {T E : Type} (results : list (Result T E)) :
  all results =
  match errs (partition results) with
  | [] => IsOk (ok (oks (partition results)))
  | first :: _ => IsErr (err first)
  end.
Proof.
  rewrite partition_payloads; simpl.
  destruct (results_split results) as [[os ->] | [os [e [rest ->]]]]; unfold all.
  - now rewrite all_loop_Ok, Err_payloads_all_Ok, Ok_payloads_all_Ok.
  - now rewrite all_loop_first_Err, Err_payloads_first_Err.
Qed.

(** X13. What an outcome of [all] says about its input.  If [all]
    returns an Ok, every element was an Ok and the held list has their
    values one for one, none dropped.  If it returns an Err, the input
    has an Err whose error is the one reported, with only Oks before it. *)
Theorem all_inversion {T E : Type} (results : list (Result T E)) :
  (forall o : Ok (list T),
      all results = IsOk o ->
      exists os, results = map IsOk os /\ value o = map value os /\
                 List.length (value o) = List.length results) /\
  (forall e : Err E,
      all results = IsErr e ->
      exists os e0 rest, results = map IsOk os ++ IsErr e0 :: rest /\
                         error e = error e0).
Proof.
  destruct (results_split results) as [[os ->] | [os [e0 [rest ->]]]]; unfold all.
  - rewrite all_loop_Ok; simpl. split.
    + intros o eq. inversion eq; subst; simpl. exists os.
      now rewrite !length_map.
    + intros e eq. discriminate eq.
  - rewrite all_loop_first_Err. split.
    + intros o eq. discriminate eq.
    + intros e eq. inversion eq; subst; simpl. exists os, e0, rest. auto.
Qed.

Lemma all_inversion_witness :
  @all nat string [IsOk (ok 1); IsOk (ok 2)] = IsOk (ok [1; 2]) /\
  exists os, [@IsOk nat string (ok 1); IsOk (ok 2)] = map IsOk os /\
             value (ok [1; 2]) = map value os /\
             List.length (value (ok [1; 2])) = 2.
Proof.
  split; [reflexivity |].
  exact (proj1 (all_inversion [@IsOk nat string (ok 1); IsOk (ok 2)])
           (ok [1; 2]) eq_refl).
Defined.

(** X14. [all] over a concatenation: an Err in the front part is the
    answer whatever the back part holds; when the front part is all Ok,
    an Err in the back part is the answer; otherwise the values of the
    two parts are joined in order. *)
Theorem all_app {T E : Type} (front back : list (Result T E)) :
  all (front ++ back) =
  match all front with
  | IsErr e => IsErr e
  | IsOk values_front =>
      match all back with
      | IsErr e => IsErr e
      | IsOk values_back => IsOk (ok (value values_front ++ value values_back))
      end
  end.
Proof.
  destruct (results_split front) as [[os ->] | [os [e [rest ->]]]].
  - destruct (results_split back) as [[os' ->] | [os' [e' [rest' ->]]]].
    + rewrite <- map_app. unfold all. rewrite !all_loop_Ok; simpl.
      now rewrite map_app.
    + rewrite app_assoc, <- map_app. unfold all.
      now rewrite all_loop_Ok, !all_loop_first_Err.
  - rewrite <- app_assoc; simpl. unfold all. now rewrite !all_loop_first_Err.
Qed.

(** ** What [tryCatch] catches *)

(** X15. [tryCatch] catches what [fn] throws and nothing else.  Without
    a mapper it always returns, whatever [fn] does.  With a mapper, what
    the mapper itself throws is not caught: [tryCatch] throws it. *)
Theorem tryCatch_catches_fn_only {S T E : Type} `{TypeAssertion unknown E}
    (fn : Fn S unit T) (m : Machine S) :
  (exists r m', tryCatch fn None m = (Normal r, m')) /\
  (forall (mapper : Fn S unknown E) c s' x s'',
      fn_body fn tt (store m) = (Throw c, s') ->
      fn_body mapper c s' = (Throw x, s'') ->
      tryCatch fn (Some mapper) m
      = (Throw x, mkMachine s'' (calls m ++ [fn_name fn; fn_name mapper]))).
Proof.
  unfold tryCatch, try_catch, bind, call, ret. split.
  - destruct (fn_body fn tt (store m)) as [[r | c] s']; simpl;
      eexists _, _; reflexivity.
  - intros mapper c s' x s'' run mapped. rewrite run; simpl. rewrite mapped; simpl.
    now rewrite <- app_assoc.
Qed.

Lemma tryCatch_catches_fn_only_witness :
  fn_body throws_boom tt (store (initial tt)) = (Throw (js_string "boom"), tt) /\
  fn_body failing_mapper (js_string "boom") tt
    = (Throw (js_string "mapper failed"), tt) /\
  tryCatch throws_boom (Some failing_mapper) (initial tt)
    = (Throw (js_string "mapper failed"),
       mkMachine tt ["fn"%string; "mapError"%string]).
Proof.
  split; [reflexivity |]. split; [reflexivity |].
  exact (proj2 (tryCatch_catches_fn_only (E:=unknown) throws_boom (initial tt))
           failing_mapper (js_string "boom") tt (js_string "mapper failed") tt
           eq_refl eq_refl).
Defined.

(** ** [fromPromise] *)

(** X16. [fromPromise]: on a promise that never settles its promise
    never settles; a fulfilled promise gives Ok of the value and the
    mapper is not invoked; a rejected one gives Err of the reason, or of
    what the mapper returns for it.  Its own promise is rejected only
    when the mapper throws, with what the mapper threw; without a mapper
    it is never rejected. *)
Theorem fromPromise_settles {S T E : Type} `{TypeAssertion unknown E}
    (m : Machine S) :
  (forall mapError, fromPromise (T:=T) None mapError m = (Normal None, m)) /\
  (forall (v : T) mapError,
      fromPromise (Some (Fulfilled v)) mapError m
      = (Normal (Some (Fulfilled (IsOk (ok v)))), m)) /\
  (forall x,
      fromPromise (T:=T) (Some (Rejected x)) None m
      = (Normal (Some (Fulfilled (IsErr (err (type_assert x))))), m)) /\
  (forall x (mapper : Fn S unknown E) e s',
      fn_body mapper x (store m) = (Normal e, s') ->
      fromPromise (T:=T) (Some (Rejected x)) (Some mapper) m
      = (Normal (Some (Fulfilled (IsErr (err e)))),
         mkMachine s' (calls m ++ [fn_name mapper]))) /\
  (forall x (mapper : Fn S unknown E) y s',
      fn_body mapper x (store m) = (Throw y, s') ->
      fromPromise (T:=T) (Some (Rejected x)) (Some mapper) m
      = (Normal (Some (Rejected y)), mkMachine s' (calls m ++ [fn_name mapper]))) /\
  (forall (promise : Promise T) y,
      fst (fromPromise promise None m) <> Normal (Some (Rejected y))).
Proof.
  repeat apply conj; try reflexivity.
  - intros x mapper e s' mapped.
    unfold fromPromise, async, try_catch, bind, call, ret; simpl.
    now rewrite mapped.
  - intros x mapper y s' mapped.
    unfold fromPromise, async, try_catch, bind, call, ret; simpl.
    now rewrite mapped.
  - intros [[v | x] |] y; simpl; discriminate.
Qed.

Lemma fromPromise_settles_witness :
  (fn_body tag_caught (js_string "boom") (store (initial tt))
     = (Normal (js_string "mapped: boom"), tt) /\
   fromPromise (T:=nat) (Some (Rejected (js_string "boom"))) (Some tag_caught)
     (initial tt)
   = (Normal (Some (Fulfilled (IsErr (err (js_string "mapped: boom"))))),
      mkMachine tt ["mapError"%string])) /\
  (fn_body failing_mapper (js_string "boom") (store (initial tt))
     = (Throw (js_string "mapper failed"), tt) /\
   fromPromise (T:=nat) (Some (Rejected (js_string "boom"))) (Some failing_mapper)
     (initial tt)
   = (Normal (Some (Rejected (js_string "mapper failed"))),
      mkMachine tt ["mapError"%string])).
Proof.
  pose proof (fromPromise_settles (S:=unit) (T:=nat) (E:=unknown) (initial tt))
    as (_ & _ & _ & mapped & thrown & _).
  split; (split; [reflexivity |]).
  - exact (mapped (js_string "boom") tag_caught (js_string "mapped: boom") tt eq_refl).
  - exact (thrown (js_string "boom") failing_mapper (js_string "mapper failed") tt
             eq_refl).
Defined.

(** X17. [fromPromise] is [tryCatch] across an [await]: on a promise that
    settles, its promise settles as the completion of [tryCatch] on the
    function that returns the fulfilment value or throws the rejection
    reason, and the two leave the same store. *)
Theorem fromPromise_mirrors_tryCatch {S T E : Type} `{TypeAssertion unknown E}
    (outcome : Settlement T) (mapError : option (Fn S unknown E))
    (name : string) (m : Machine S) :
  fst (fromPromise (Some outcome) mapError m)
  = Normal (Some (settle (fst (tryCatch (settles_as name outcome) mapError m)))) /\
  store (snd (fromPromise (Some outcome) mapError m))
  = store (snd (tryCatch (settles_as name outcome) mapError m)).
Proof.
  unfold fromPromise, tryCatch, async, try_catch, bind, call, ret, settles_as, await.
  destruct outcome as [v | x]; simpl; [split; reflexivity |].
  destruct mapError as [mapper |]; simpl; [| split; reflexivity].
  destruct (fn_body mapper x (store m)) as [[e | y] s']; simpl; split; reflexivity.
Qed.

(** ** The patterns of [examples/advanced.ts] *)

(** X18. [withFallback] always gives an Ok, holding the value of [result]
    or else the fallback, so that [unwrap] on it never throws:
    [withFallback(result, fallback).unwrap()] returns what
    [result.unwrapOr(fallback)] returns, and the store is left alone. *)
Theorem withFallback_always_Ok {S T : Type}
    (result : Result T string) (fallback : T) (m : Machine S) :
  exists o,
    fst (withFallback result fallback m) = Normal (IsOk o) /\
    fst (Result.unwrapOr result fallback m) = Normal (value o) /\
    fst ((r <- withFallback result fallback ;; Result.unwrap r) m) = Normal (value o) /\
    store (snd (withFallback result fallback m)) = store m.
Proof.
  destruct result as [o | e].
  - exists o. repeat split.
  - exists (ok fallback). repeat split.
Qed.

(** X19. [pipeline] stops at the first error: when [step1] returns an
    Err, [step2] is not invoked and that Err is the result; when it
    returns an Ok, the result is what [step2] makes of its value; when it
    throws, [pipeline] throws. *)
Theorem pipeline_stops_at_first_error {S A B C : Type}
    (input : A) (step1 : Fn S A (Result B string)) (step2 : Fn S B (Result C string))
    (m : Machine S) :
  (forall e s',
      fn_body step1 input (store m) = (Normal (IsErr e), s') ->
      pipeline input step1 step2 m
      = (Normal (IsErr e), mkMachine s' (calls m ++ [fn_name step1]))) /\
  (forall o s',
      fn_body step1 input (store m) = (Normal (IsOk o), s') ->
      pipeline input step1 step2 m
      = call step2 (value o) (mkMachine s' (calls m ++ [fn_name step1]))) /\
  (forall x s',
      fn_body step1 input (store m) = (Throw x, s') ->
      pipeline input step1 step2 m
      = (Throw x, mkMachine s' (calls m ++ [fn_name step1]))).
Proof.
  unfold pipeline, bind, call.
  repeat apply conj; intros ? s' run; rewrite run; reflexivity.
Qed.

Lemma pipeline_stops_at_first_error_witness :
  fn_body (pure_fn (S:=unit) "step1"
             (fun _ : nat => @IsErr nat string (err "Negative input")))
    0 (store (initial tt))
  = (Normal (IsErr (err "Negative input"%string)), tt) /\
  pipeline 0
    (pure_fn "step1" (fun _ : nat => @IsErr nat string (err "Negative input")))
    (pure_fn "step2" (fun n : nat => @IsOk nat string (ok (n * 2))))
    (initial tt)
  = (Normal (IsErr (err "Negative input"%string)), mkMachine tt ["step1"%string]).
Proof.
  split; [reflexivity |].
  exact (proj1 (pipeline_stops_at_first_error 0
                  (pure_fn "step1"
                     (fun _ : nat => @IsErr nat string (err "Negative input")))
                  (pure_fn "step2" (fun n : nat => @IsOk nat string (ok (n * 2))))
                  (initial tt))
           (err "Negative input"%string) tt eq_refl).
Defined.

(** ** [orElse] *)

(** X20. [orElse] is the mirror image of [andThen].  An Ok comes back
    untouched and the recovery function is not invoked; the error of an
    Err is handed to it, once, and its Result is the result.  Recovery is
    associative: [r.orElse(f).orElse(g)] and
    [r.orElse(e => f(e).orElse(g))] end the same way and leave the same
    store. *)
Theorem orElse_recovers {S T E F G : Type}
    (f : Fn S E (Result T F)) (g : Fn S F (Result T G)) (name : string)
    (m : Machine S) :
  (forall v : T, Result.orElse (ok v) f m = (Normal (IsOk (ok v)), m)) /\
  (forall e : E,
      Result.orElse (err e) f m = call f e m /\
      calls (snd (Result.orElse (err e) f m)) = calls m ++ [fn_name f]) /\
  (forall r : Result T E,
      let chained := (r1 <- Result.orElse r f ;; Result.orElse r1 g) m in
      let nested :=
        Result.orElse r
          (lambda name (fun e => r1 <- call f e ;; Result.orElse r1 g)) m in
      fst chained = fst nested /\ store (snd chained) = store (snd nested)).
Proof.
  split; [reflexivity |]. split.
  - intros e. split; [reflexivity | apply call_logs_once].
  - intros [o | e]; simpl; [split; reflexivity |].
    unfold Err.orElse, lambda, bind, call; simpl.
    destruct (fn_body f (error e) (store m)) as [[[o1 | e1] | x] s1]; simpl;
      try (split; reflexivity).
    unfold Err.orElse, call; simpl.
    destruct (fn_body g (error e1) s1) as [c s2]; simpl. split; reflexivity.
Qed.

(** ** [tryCatch] with a default *)

(** X21. [tryCatch(fn).unwrapOr(d)] never throws: it returns what [fn]
    returns, and [d] when [fn] throws. *)
Theorem tryCatch_unwrapOr_total {S T : Type}
    (fn : Fn S unit T) (d : T) (m : Machine S) :
  fst ((r <- tryCatch (E:=unknown) fn None ;; Result.unwrapOr r d) m)
  = Normal (match fst (fn_body fn tt (store m)) with
            | Normal v => v
            | Throw _ => d
            end).
Proof.
  unfold tryCatch, try_catch, bind, call, ret.
  destruct (fn_body fn tt (store m)) as [[v | x] s']; reflexivity.
Qed.
